(** * netflyx: the storage-backed resource cache and the banner helpers

    A shallow embedding of [get], [preferStorage], [truncate] and
    [randomFrom] (src/App.tsx and its later revisions), together with a
    model of the parts of the JavaScript environment they run on.

    - Strings are sequences of UTF-16 code units.
    - [JSON.stringify] and [JSON.parse] work on texts, character by
      character, for the whole JSON grammar; they are proved inverse to each
      other on the values of the heap.
    - A finite Number is the pair (digits, position of the decimal point) in
      which [Number::toString] prints it; the rounding and the range of binary
      doubles are not modelled.
    - [window.localStorage] is a finite map from strings to strings, without
      a bound on its size.
    - A promise is what it settles to; an asynchronous function is a
      function from the world before the call to the settlement and the world
      after it.  The resource producer handed to [preferStorage] works on the
      page (network, console), not on the storage area.
    - [Math.random()] is an argument: a rational in [0, 1). *)

From Stdlib Require Import ZArith NArith QArith Qround Ascii String.
From stdpp Require Import gmap list.

Local Open Scope N_scope.

(** ** JavaScript strings *)

(** A JavaScript string is a finite sequence of 16-bit code units;
    [length] is its [.length]. *)
Abbreviation JSString := (list N).

(** The string written with the given Latin-1 characters. *)
Definition js (s : string) : JSString :=
  N_of_ascii <$> list_ascii_of_string s.


Definition is_leading_surrogate (c : N) : bool := (55296 <=? c) && (c <=? 56319).
Definition is_trailing_surrogate (c : N) : bool := (56320 <=? c) && (c <=? 57343).

(** [sep.join(parts)] *)
Fixpoint join (sep : JSString) (parts : list JSString) : JSString :=
  match parts with
  | [] => []
  | [p] => p
  | p :: ps => p ++ sep ++ join sep ps
  end.

(** ** JavaScript values *)

(** A Number. A finite number is kept as the ECMAScript specification of
    [Number::toString] decomposes it: the digits [d1 ... dk] of its shortest
    decimal representation (no leading and no trailing zero; none at all for
    zero) and the position [n] of the decimal point, the value being
    [0.d1...dk * 10^n].  Arithmetic on binary doubles (rounding, overflow)
    is not modelled. *)
Inductive JSNumber :=
| Finite (negative : bool) (digits : list N) (point : Z)
| NaN
| Infinity (negative : bool).

(** The values a resource can be.  The fields of an object are listed in
    property enumeration order. *)
#[warnings="-register-all"]
Inductive JSValue :=
| JUndefined
| JNull
| JBool (b : bool)
| JNumber (n : JSNumber)
| JString (s : JSString)
| JArray (elements : list JSValue)
| JObject (fields : list (JSString * JSValue)).

(** ** Number::toString (radix 10) *)

Definition digit_char (d : N) : N := 48 + d.
Definition zeros (n : nat) : JSString := replicate n 48.

(** The decimal digits of a natural number, most significant first. *)
Fixpoint digits_of_pos_aux (fuel : nat) (n : N) (acc : list N) : list N :=
  match fuel with
  | O => acc
  | S fuel' =>
      if n <? 10 then n :: acc
      else digits_of_pos_aux fuel' (n / 10) (n mod 10 :: acc)
  end.

Definition decimal_digits (n : N) : list N :=
  digits_of_pos_aux (S (N.to_nat (N.log2 n))) n [].

(** The exponent part: e, a sign, the decimal digits of the magnitude. *)
Definition exponent_toString (e : Z) : JSString :=
  js "e" ++ (if bool_decide (e < 0)%Z then js "-" else js "+") ++
  (digit_char <$> decimal_digits (Z.abs_N e)).

(** A positive number with digits [d :: ds'] and decimal point at [n]. *)
Definition decimal_toString (d : N) (ds' : list N) (n : Z) : JSString :=
  let k := Z.of_nat (length (d :: ds')) in
  let s := digit_char <$> d :: ds' in
  if bool_decide (k ≤ n ≤ 21)%Z then
    s ++ zeros (Z.to_nat (n - k))
  else if bool_decide (0 < n ≤ 21)%Z then
    take (Z.to_nat n) s ++ js "." ++ drop (Z.to_nat n) s
  else if bool_decide (-6 < n ≤ 0)%Z then
    js "0." ++ zeros (Z.to_nat (- n)) ++ s
  else
    match ds' with
    | [] => [digit_char d] ++ exponent_toString (n - 1)
    | _ => [digit_char d] ++ js "." ++ (digit_char <$> ds') ++
           exponent_toString (n - 1)
    end.

Definition Number_toString (x : JSNumber) : JSString :=
  match x with
  | NaN => js "NaN"
  | Infinity neg => (if neg then js "-" else []) ++ js "Infinity"
  | Finite _ [] _ => js "0"
  | Finite neg (d :: ds') n =>
      (if neg then js "-" else []) ++ decimal_toString d ds' n
  end.

(** ** JSON.stringify *)

Definition hex_char (d : N) : N := if d <? 10 then 48 + d else 87 + d.

(** [\uXXXX], lower-case hexadecimal. *)
Definition UnicodeEscape (c : N) : JSString :=
  [92; 117; hex_char (c / 4096 mod 16); hex_char (c / 256 mod 16);
   hex_char (c / 16 mod 16); hex_char (c mod 16)].

Fixpoint QuoteJSONString_body (s : JSString) : JSString :=
  match s with
  | [] => []
  | c :: rest =>
      if bool_decide (c = 8) then js "\b" ++ QuoteJSONString_body rest
      else if bool_decide (c = 9) then js "\t" ++ QuoteJSONString_body rest
      else if bool_decide (c = 10) then js "\n" ++ QuoteJSONString_body rest
      else if bool_decide (c = 12) then js "\f" ++ QuoteJSONString_body rest
      else if bool_decide (c = 13) then js "\r" ++ QuoteJSONString_body rest
      else if bool_decide (c = 34) then [92; 34] ++ QuoteJSONString_body rest
      else if bool_decide (c = 92) then [92; 92] ++ QuoteJSONString_body rest
      else if c <? 32 then UnicodeEscape c ++ QuoteJSONString_body rest
      else if is_leading_surrogate c then
        match rest with
        | c2 :: rest' =>
            if is_trailing_surrogate c2
            then c :: c2 :: QuoteJSONString_body rest'
            else UnicodeEscape c ++ QuoteJSONString_body rest
        | [] => UnicodeEscape c
        end
      else if is_trailing_surrogate c then
        UnicodeEscape c ++ QuoteJSONString_body rest
      else c :: QuoteJSONString_body rest
  end.

Definition QuoteJSONString (s : JSString) : JSString :=
  [34] ++ QuoteJSONString_body s ++ [34].

Definition is_finite (x : JSNumber) : bool :=
  match x with Finite _ _ _ => true | _ => false end.

(** [JSON.stringify(value)] with no replacer and no indentation; [None] is
    the result [undefined]. *)
Fixpoint JSON_stringify (value : JSValue) : option JSString :=
  match value with
  | JUndefined => None
  | JNull => Some (js "null")
  | JBool true => Some (js "true")
  | JBool false => Some (js "false")
  | JNumber x => Some (if is_finite x then Number_toString x else js "null")
  | JString s => Some (QuoteJSONString s)
  | JArray elements =>
      Some (js "[" ++
            join (js ",")
              ((fun e => default (js "null") (JSON_stringify e)) <$> elements) ++
            js "]")
  | JObject fields =>
      Some (js "{" ++
            join (js ",")
              (omap (fun kv =>
                       (fun t => QuoteJSONString kv.1 ++ js ":" ++ t) <$>
                       JSON_stringify kv.2) fields) ++
            js "}")
  end.

(** ** JSON.parse *)

Definition is_ws (c : N) : bool :=
  bool_decide (c = 32) || bool_decide (c = 9) ||
  bool_decide (c = 10) || bool_decide (c = 13).

Fixpoint skip_ws (s : JSString) : JSString :=
  match s with
  | c :: rest => if is_ws c then skip_ws rest else s
  | [] => []
  end.

Definition digit_value (c : N) : option N :=
  if (48 <=? c) && (c <=? 57) then Some (c - 48) else None.

Definition hex_value (c : N) : option N :=
  if (48 <=? c) && (c <=? 57) then Some (c - 48)
  else if (97 <=? c) && (c <=? 102) then Some (c - 87)
  else if (65 <=? c) && (c <=? 70) then Some (c - 55)
  else None.

(** The longest run of decimal digits at the head of [s], and what follows. *)
Fixpoint span_digits (s : JSString) : list N * JSString :=
  match s with
  | c :: rest =>
      match digit_value c with
      | Some d => let '(ds, rest') := span_digits rest in (d :: ds, rest')
      | None => ([], s)
      end
  | [] => ([], [])
  end.

Definition number_of_digits (ds : list N) : N :=
  foldl (fun acc d => 10 * acc + d) 0 ds.

Fixpoint strip_leading_zeros (ds : list N) : list N :=
  match ds with
  | 0 :: rest => strip_leading_zeros rest
  | _ => ds
  end.

Definition strip_trailing_zeros (ds : list N) : list N :=
  reverse (strip_leading_zeros (reverse ds)).

(** The number denoted by the literal [int.frac e exp]. *)
Definition make_number (neg : bool) (int frac : list N) (exp : Z) : JSNumber :=
  let ds := strip_leading_zeros (int ++ frac) in
  let skipped := (length (int ++ frac) - length ds)%nat in
  match strip_trailing_zeros ds with
  | [] => Finite neg [] 0
  | ds' => Finite neg ds' (Z.of_nat (length int) + exp - Z.of_nat skipped)
  end.

(** A JSON number: an optional minus sign; then a single 0, or a non-zero
    digit and any digits; then optionally a point and one or more digits; then
    optionally e or E, an optional sign and one or more digits. *)
Definition parse_int (s : JSString) : option (list N * JSString) :=
  match s with
  | c :: r =>
      if bool_decide (c = 48) then Some ([0], r)
      else match digit_value c with
           | Some d => let '(ds, r') := span_digits r in Some (d :: ds, r')
           | None => None
           end
  | [] => None
  end.

Definition parse_frac (s : JSString) : option (list N * JSString) :=
  match s with
  | c :: r =>
      if bool_decide (c = 46) then
        match span_digits r with
        | ([], _) => None
        | (ds, r') => Some (ds, r')
        end
      else Some ([], s)
  | [] => Some ([], s)
  end.

Definition parse_sign (s : JSString) : Z * JSString :=
  match s with
  | c :: r =>
      if bool_decide (c = 45) then ((-1)%Z, r)
      else if bool_decide (c = 43) then (1%Z, r)
      else (1%Z, s)
  | [] => (1%Z, s)
  end.

Definition parse_exp (s : JSString) : option (Z * JSString) :=
  match s with
  | c :: r =>
      if bool_decide (c = 101) || bool_decide (c = 69) then
        let '(sign, r1) := parse_sign r in
        match span_digits r1 with
        | ([], _) => None
        | (ds, r') => Some ((sign * Z.of_N (number_of_digits ds))%Z, r')
        end
      else Some (0%Z, s)
  | [] => Some (0%Z, s)
  end.

Definition parse_unsigned (neg : bool) (s : JSString)
    : option (JSNumber * JSString) :=
  '(int, s2) ← parse_int s;
  '(frac, s3) ← parse_frac s2;
  '(exp, s4) ← parse_exp s3;
  Some (make_number neg int frac exp, s4).

Definition parse_number (s : JSString) : option (JSNumber * JSString) :=
  match s with
  | c :: r => if bool_decide (c = 45) then parse_unsigned true r
              else parse_unsigned false s
  | [] => None
  end.

(** The characters of a string literal after its opening quote, up to and
    including the closing quote. *)
Fixpoint parse_string_body (s : JSString) : option (JSString * JSString) :=
  match s with
  | [] => None
  | c :: rest =>
      if bool_decide (c = 34) then Some ([], rest)
      else if bool_decide (c = 92) then
        match rest with
        | [] => None
        | e :: rest' =>
            if bool_decide (e = 117) then
              match rest' with
              | h1 :: h2 :: h3 :: h4 :: rest'' =>
                  d1 ← hex_value h1; d2 ← hex_value h2;
                  d3 ← hex_value h3; d4 ← hex_value h4;
                  '(str, r) ← parse_string_body rest'';
                  Some ((4096 * d1 + 256 * d2 + 16 * d3 + d4) :: str, r)
              | _ => None
              end
            else
              c' ← (if bool_decide (e = 34) then Some 34
                    else if bool_decide (e = 92) then Some 92
                    else if bool_decide (e = 47) then Some 47
                    else if bool_decide (e = 98) then Some 8
                    else if bool_decide (e = 102) then Some 12
                    else if bool_decide (e = 110) then Some 10
                    else if bool_decide (e = 114) then Some 13
                    else if bool_decide (e = 116) then Some 9
                    else None);
              '(str, r) ← parse_string_body rest';
              Some (c' :: str, r)
        end
      else if c <? 32 then None
      else '(str, r) ← parse_string_body rest; Some (c :: str, r)
  end.

(** An array index: a canonical numeric string denoting at most 2^32 - 2. *)
Definition array_index (key : JSString) : option N :=
  ds ← mapM digit_value key;
  match ds with
  | [] => None
  | 0 :: _ :: _ => None
  | _ => let i := number_of_digits ds in
         if i <? 4294967295 then Some i else None
  end.

Fixpoint update_field (k : JSString) (v : JSValue)
    (fields : list (JSString * JSValue)) : list (JSString * JSValue) :=
  match fields with
  | [] => []
  | (k', v') :: rest =>
      if bool_decide (k' = k) then (k, v) :: rest
      else (k', v') :: update_field k v rest
  end.

Fixpoint insert_index (i : N) (k : JSString) (v : JSValue)
    (fields : list (JSString * JSValue)) : list (JSString * JSValue) :=
  match fields with
  | [] => [(k, v)]
  | (k', v') :: rest =>
      match array_index k' with
      | Some j => if j <? i then (k', v') :: insert_index i k v rest
                  else (k, v) :: fields
      | None => (k, v) :: fields
      end
  end.

(** [CreateDataProperty(o, k, v)] on an ordinary object as seen through its
    property enumeration: an existing key keeps its place, a new array index
    goes among the indices in ascending order, any other new key goes last. *)
Definition define_property (k : JSString) (v : JSValue)
    (fields : list (JSString * JSValue)) : list (JSString * JSValue) :=
  if bool_decide (k ∈ fields.*1) then update_field k v fields
  else match array_index k with
       | Some i => insert_index i k v fields
       | None => fields ++ [(k, v)]
       end.

Definition strip_prefix (p s : JSString) : option JSString :=
  if bool_decide (take (length p) s = p) then Some (drop (length p) s) else None.

Fixpoint parse_value (fuel : nat) (s : JSString) : option (JSValue * JSString) :=
  match fuel with
  | O => None
  | S fuel =>
      match skip_ws s with
      | [] => None
      | c :: rest =>
          if bool_decide (c = 110) then
            r ← strip_prefix (js "ull") rest; Some (JNull, r)
          else if bool_decide (c = 116) then
            r ← strip_prefix (js "rue") rest; Some (JBool true, r)
          else if bool_decide (c = 102) then
            r ← strip_prefix (js "alse") rest; Some (JBool false, r)
          else if bool_decide (c = 34) then
            '(str, r) ← parse_string_body rest; Some (JString str, r)
          else if bool_decide (c = 91) then
            match skip_ws rest with
            | c' :: r => if bool_decide (c' = 93) then Some (JArray [], r)
                         else parse_elements fuel [] rest
            | [] => None
            end
          else if bool_decide (c = 123) then
            match skip_ws rest with
            | c' :: r => if bool_decide (c' = 125) then Some (JObject [], r)
                         else parse_members fuel [] rest
            | [] => None
            end
          else
            '(x, r) ← parse_number (c :: rest); Some (JNumber x, r)
      end
  end
with parse_elements (fuel : nat) (acc : list JSValue) (s : JSString)
    : option (JSValue * JSString) :=
  match fuel with
  | O => None
  | S fuel =>
      '(v, r) ← parse_value fuel s;
      match skip_ws r with
      | c :: r' =>
          if bool_decide (c = 44) then parse_elements fuel (acc ++ [v]) r'
          else if bool_decide (c = 93) then Some (JArray (acc ++ [v]), r')
          else None
      | [] => None
      end
  end
with parse_members (fuel : nat) (acc : list (JSString * JSValue)) (s : JSString)
    : option (JSValue * JSString) :=
  match fuel with
  | O => None
  | S fuel =>
      match skip_ws s with
      | c :: r =>
          if bool_decide (c = 34) then
            '(k, r1) ← parse_string_body r;
            match skip_ws r1 with
            | c1 :: r2 =>
                if bool_decide (c1 = 58) then
                  '(v, r3) ← parse_value fuel r2;
                  match skip_ws r3 with
                  | c3 :: r4 =>
                      if bool_decide (c3 = 44)
                      then parse_members fuel (define_property k v acc) r4
                      else if bool_decide (c3 = 125)
                      then Some (JObject (define_property k v acc), r4)
                      else None
                  | [] => None
                  end
                else None
            | [] => None
            end
          else None
      | [] => None
      end
  end.

(** [JSON.parse(text)] with no reviver; [None] is a thrown [SyntaxError]. *)
Definition JSON_parse (text : JSString) : option JSValue :=
  '(v, rest) ← parse_value (2 * length text + 2) text;
  if bool_decide (skip_ws rest = []) then Some v else None.

(** ** Promises *)

Inductive JSError :=
| SyntaxError                 (* JSON.parse, Response.json *)
| FetchTypeError              (* fetch: the request could not be made *)
| ResponseNotOkay             (* Error(`Response not okay: ...`) *)
| Thrown (reason : JSValue).  (* anything else a producer rejects with *)

Inductive Completion (A : Type) :=
| Resolved (a : A)
| Rejected (e : JSError).
Arguments Resolved {A} a.
Arguments Rejected {A} e.

(** An asynchronous operation run to completion against a world [W]: what
    its promise settles to, and the world it leaves.  A call is run from
    start to settlement in one piece; [two_in_flight] below is the one
    interleaving at [await] that is looked at. *)
Definition Task (W A : Type) : Type := W → Completion A * W.

#[global] Instance Task_ret {W} : MRet (Task W) :=
  λ A a w, (Resolved a, w).
#[global] Instance Task_bind {W} : MBind (Task W) :=
  λ A B f m w,
    match m w with
    | (Resolved a, w') => f a w'
    | (Rejected e, w') => (Rejected e, w')
    end.

Definition throw {W A} (e : JSError) : Task W A := λ w, (Rejected e, w).

(** [promise.catch(handler)] *)
Definition catch {W A} (m : Task W A) (handler : JSError → Task W A) : Task W A :=
  λ w, match m w with
       | (Resolved a, w') => (Resolved a, w')
       | (Rejected e, w') => handler e w'
       end.

(** ** window.localStorage *)

(** The storage area of the origin: string keys, string values, no bound on
    its size.  The page around it is some [E]: the network, the console,
    whatever a resource producer works on. *)
Abbreviation Storage := (gmap JSString JSString).

(** [window.localStorage.getItem(key)]; [None] is [null]. *)
Definition localStorage_getItem {E} (key : JSString)
    : Task (Storage * E) (option JSString) :=
  λ w, (Resolved (w.1 !! key), w).

(** [window.localStorage.setItem(key, value)]; the value is converted to a
    string, [undefined] to the string "undefined". *)
Definition localStorage_setItem {E} (key : JSString) (value : option JSString)
    : Task (Storage * E) unit :=
  λ w, (Resolved (), (<[key := default (js "undefined") value]> w.1, w.2)).

(** [if (stored)]: [null] and the empty string are falsy. *)
Definition truthy (stored : option JSString) : bool :=
  match stored with
  | Some (_ :: _) => true
  | _ => false
  end.

Definition JSON_parse_task {W} (text : option JSString) : Task W JSValue :=
  match JSON_parse (default (js "null") text) with
  | Some v => mret v
  | None => throw SyntaxError
  end.

(** [await getResource()]: the producer works on the page, not on the
    storage area. *)
Definition await {E A} (promise : Task E A) : Task (Storage * E) A :=
  λ w, let '(r, e') := promise w.2 in (r, (w.1, e')).

(** ** src/App.tsx *)

(** preferStorage (App.tsx, lines 41-50) *)
Definition preferStorage {E} (resourceKey : JSString)
    (getResource : Task E JSValue) : Task (Storage * E) JSValue :=
  stored ← localStorage_getItem resourceKey;
  if truthy stored then JSON_parse_task stored
  else
    resource ← await getResource;
    localStorage_setItem resourceKey (JSON_stringify resource);;
    mret resource.


(** The network as [fetch] sees it. *)
Record Response := { ok : bool; body : JSString }.

Inductive FetchResult :=
| NetworkFailure
| Responds (response : Response).

Record Page := {
  network : JSString → FetchResult;   (* what a request to a URL meets *)
  requests : list JSString;           (* the requests made so far *)
  console : list JSError              (* what console.error has printed *)
}.

Definition fetch (url : JSString) : Task Page Response :=
  λ page,
    let page' := {| network := network page;
                    requests := requests page ++ [url];
                    console := console page |} in
    match network page url with
    | NetworkFailure => (Rejected FetchTypeError, page')
    | Responds response => (Resolved response, page')
    end.

Definition Response_json (response : Response) : Task Page JSValue :=
  match JSON_parse (body response) with
  | Some v => mret v
  | None => throw SyntaxError
  end.

Definition console_error (error : JSError) : Task Page unit :=
  λ page, (Resolved (), {| network := network page;
                           requests := requests page;
                           console := console page ++ [error] |}).

(** get (App.tsx, lines 26-36) *)
Definition get (url : JSString) : Task (Storage * Page) JSValue :=
  preferStorage url
    (catch
       (response ← fetch (js "https://api.themoviedb.org/3" ++ url);
        if negb (ok response) then throw ResponseNotOkay
        else Response_json response)
       (λ error, console_error error;; mret JUndefined)).

(** ** The banner helpers *)

(** [str.substr(start, length)] *)
Definition substr (str : JSString) (start length : Z) : JSString :=
  let size := Z.of_nat (List.length str) in
  let intStart := if bool_decide (start < 0)%Z then Z.max (size + start) 0
                  else Z.min start size in
  let intLength := Z.min (Z.max length 0) size in
  let intEnd := Z.min (intStart + intLength) size in
  take (Z.to_nat (intEnd - intStart)) (drop (Z.to_nat intStart) str).

(** truncate; [None] is an [undefined] argument, which [?.] lets through.
    The limit is an integer. *)
Definition truncate (limit : Z) (str : option JSString) : option JSString :=
  match str with
  | None => None
  | Some s =>
      if bool_decide (Z.of_nat (List.length s) > limit)%Z
      then Some (substr s 0 (limit - 1) ++ js "...")
      else Some s
  end.

(** What a variable of type [T | null] holds at run time. *)
Inductive Nullable (T : Type) :=
| Null
| Undefined
| Value (t : T).
Arguments Null {T}.
Arguments Undefined {T}.
Arguments Value {T} t.

(** [array[i]] *)
Definition array_get {T} (array : list T) (i : Z) : Nullable T :=
  if bool_decide (i < 0)%Z then Undefined
  else match array !! Z.to_nat i with
       | Some t => Value t
       | None => Undefined
       end.

(** The index [randomFrom] computes from the draw of [Math.random()]. *)
Definition randomIndex {T} (array : list T) (random : Q) : Z :=
  Qfloor (random * inject_Z (Z.of_nat (List.length array)) - 1).

(** randomFrom, as a function of the draw of [Math.random()], a rational
    in [0, 1); products and differences are exact. *)
Definition randomFrom {T} (array : list T) (random : Q) : Nullable T :=
  if bool_decide (List.length array = 0%nat) then Null
  else array_get array (randomIndex array random).

(** ** Values and their JSON texts *)













(** What follows a value inside a text: nothing, a comma or a closing
    bracket. *)
Definition delimited (rest : JSString) : Prop :=
  match rest with
  | [] => True
  | c :: _ => c = 44 ∨ c = 93 ∨ c = 125
  end.






(** ** Observing the cache *)

(** What a call settles to when it is served from the stored text. *)
Definition parsed (text : JSString) : Completion JSValue :=
  match JSON_parse text with
  | Some v => Resolved v
  | None => Rejected SyntaxError
  end.

(** A producer under observation: the counter in front of its environment
    goes up by one each time it is invoked. *)
Definition spy {E A} (produce : Task E A) : Task (nat * E) A :=
  λ w, let '(r, e') := produce w.2 in (r, (S w.1, e')).

(** What is written for a resource: its JSON text, and the string
    "undefined" for [undefined]. *)
Definition serialization (resource : JSValue) : JSString :=
  default (js "undefined") (JSON_stringify resource).



Abbreviation FetchLog := (list (JSString * Completion JSValue)).





(** The Number with the given integer value. *)
Definition integer (z : Z) : JSValue :=
  JNumber (make_number (bool_decide (z < 0)%Z) (decimal_digits (Z.abs_N z)) [] 0).

(** The resource of the movie with id 42: [{id: 42, title: "X"}]. *)
Definition movie42 : JSValue :=
  JObject [(js "id", integer 42); (js "title", JString (js "X"))].

(** A page with no network, before any request. *)
Definition offline : Page :=
  {| network := λ _, NetworkFailure; requests := []; console := [] |}.



(** The ways the fetch behind [get] fails: the request cannot be made, the
    response is not ok, or its body is not JSON. *)
Definition fetch_failure (page : Page) (url : JSString) : option JSError :=
  match network page (js "https://api.themoviedb.org/3" ++ url) with
  | NetworkFailure => Some FetchTypeError
  | Responds response =>
      if negb (ok response) then Some ResponseNotOkay
      else match JSON_parse (body response) with
           | Some _ => None
           | None => Some SyntaxError
           end
  end.



(** ** The endpoints and the rows *)



(** The [TypeError] of reading a property of [undefined] or [null]. *)
Definition TypeError : JSError := Thrown (JString (js "TypeError")).

Fixpoint own_property (key : JSString) (fields : list (JSString * JSValue))
    : option JSValue :=
  match fields with
  | [] => None
  | (k, v) :: rest => if bool_decide (k = key) then Some v
                      else own_property key rest
  end.

(** [value.key], for a key that is no index, not "length" and not defined
    by a prototype (as "results" is): a [TypeError] on [undefined] and [null],
    the own property of an object or [undefined] when it has none, and
    [undefined] on every other value. *)
Definition get_property {W} (value : JSValue) (key : JSString) : Task W JSValue :=
  match value with
  | JUndefined | JNull => throw TypeError
  | JObject fields => mret (default JUndefined (own_property key fields))
  | _ => mret JUndefined
  end.

(** The world of a row: the storage area and the page, and the state
    [movies] of the component. *)
Definition setMovies (value : JSValue) : Task (Storage * Page * JSValue) unit :=
  λ w, (Resolved (), (w.1, value)).

(** An operation on the storage area and the page, run beside the state of
    the component. *)
Definition on_page {A} (m : Task (Storage * Page) A)
    : Task (Storage * Page * JSValue) A :=
  λ w, let '(r, w') := m w.1 in (r, (w', w.2)).

(** The effect of ContentRow (App.tsx, lines 102-116; MoviesRow and
    MovieRow later), from the call of [get] to the settlement of the promise
    chain; [subscribed] is the value of the variable when the handlers run. *)
Definition ContentRow_effect (fetchUrl : JSString) (subscribed : bool)
    : Task (Storage * Page * JSValue) unit :=
  catch
    (response ← on_page (get fetchUrl);
     if negb subscribed then mret ()
     else results ← get_property response (js "results"); setMovies results)
    (λ _, if negb subscribed then mret () else setMovies (JArray [])).



(** * Properties of the JSON model *)

Section string_literals.






End string_literals.

Section number_literals.























End number_literals.

Section values.









Lemma skip_ws_delimited rest :
  delimited rest → skip_ws rest = rest.
Proof.
  destruct rest as [|c r]; [done|]. simpl. intros H.
  replace (is_ws c) with false; [done|]. symmetry. unfold is_ws.
  rewrite !orb_false_iff, !bool_decide_eq_false. lia.
Qed.




























End values.

(** * [JSON.parse] does not depend on the fuel *)

Section fuel.

Lemma skip_ws_length s : (length (skip_ws s) ≤ length s)%nat.
Proof.
  induction s as [|c s IH]; [done|]. cbn [skip_ws].
  destruct (is_ws c); cbn [length]; lia.
Qed.

Lemma strip_prefix_length p s r :
  strip_prefix p s = Some r → (length r ≤ length s)%nat.
Proof.
  unfold strip_prefix. case_bool_decide; [|done]. intros [= <-].
  rewrite length_drop. lia.
Qed.

Lemma span_digits_length s : (length (span_digits s).2 ≤ length s)%nat.
Proof.
  induction s as [|c s IH]; [done|]. cbn [span_digits].
  destruct (digit_value c); [|done].
  destruct (span_digits s) as [ds r]. cbn [snd length] in *. lia.
Qed.

Lemma parse_string_body_length s : ∀ str r,
  parse_string_body s = Some (str, r) → (length r < length s)%nat.
Proof.
  induction s as [s IH] using (induction_ltof1 _ length). unfold ltof in IH.
  intros str r. destruct s as [|c rest]; [done|]. cbn [parse_string_body].
  case_bool_decide.
  { intros [= <- <-]. cbn [length]. lia. }
  case_bool_decide.
  - destruct rest as [|e rest']; [done|]. case_bool_decide.
    + destruct rest' as [|h1 [|h2 [|h3 [|h4 rest'']]]]; try done.
      destruct (hex_value h1), (hex_value h2), (hex_value h3), (hex_value h4);
        try done. cbn [mbind option_bind].
      destruct (parse_string_body rest'') as [[str' r']|] eqn:Hp; [|done].
      intros [= <- <-]. apply IH in Hp; cbn [length] in *; lia.
    + destruct (if bool_decide (e = 34) then _ else _); [|done].
      cbn [mbind option_bind].
      destruct (parse_string_body rest') as [[str' r']|] eqn:Hp; [|done].
      intros [= <- <-]. apply IH in Hp; cbn [length] in *; lia.
  - destruct (c <? 32); [done|].
    destruct (parse_string_body rest) as [[str' r']|] eqn:Hp; [|done].
    intros [= <- <-]. apply IH in Hp; cbn [length] in *; lia.
Qed.

Lemma parse_number_length s x r :
  parse_number s = Some (x, r) → (length r < length s)%nat.
Proof.
  assert (Hint : ∀ s ds r, parse_int s = Some (ds, r) → (length r < length s)%nat).
  { intros [|c s'] ds r'; [done|]. cbn [parse_int]. case_bool_decide.
    - intros [= <- <-]. cbn [length]. lia.
    - destruct (digit_value c); [|done].
      pose proof (span_digits_length s').
      destruct (span_digits s') as [ds' r'']. intros [= <- <-].
      cbn [snd length] in *. lia. }
  assert (Hfrac : ∀ s ds r, parse_frac s = Some (ds, r) → (length r ≤ length s)%nat).
  { intros [|c s'] ds r'; [by intros [= <- <-]|]. cbn [parse_frac].
    case_bool_decide; [|by intros [= <- <-]].
    pose proof (span_digits_length s').
    destruct (span_digits s') as [[|d ds'] r'']; [done|]. intros [= <- <-].
    cbn [snd length] in *. lia. }
  assert (Hexp : ∀ s e r, parse_exp s = Some (e, r) → (length r ≤ length s)%nat).
  { intros [|c s'] e r'; [by intros [= <- <-]|]. cbn [parse_exp].
    destruct (bool_decide (c = 101) || bool_decide (c = 69));
      [|by intros [= <- <-]].
    assert (length (parse_sign s').2 ≤ length s')%nat as Hsign.
    { destruct s' as [|c' s'']; [done|]. cbn [parse_sign].
      repeat case_bool_decide; cbn [snd length]; lia. }
    destruct (parse_sign s') as [sign r1]. cbn [snd] in Hsign.
    pose proof (span_digits_length r1).
    destruct (span_digits r1) as [[|d ds'] r'']; [done|]. intros [= <- <-].
    cbn [snd length] in *. lia. }
  assert (Hun : ∀ neg s x r, parse_unsigned neg s = Some (x, r) →
                             (length r < length s)%nat).
  { intros neg s0 x0 r0. unfold parse_unsigned.
    destruct (parse_int s0) as [[int s2]|] eqn:H1; [|done].
    cbn [mbind option_bind].
    destruct (parse_frac s2) as [[frac s3]|] eqn:H2; [|done].
    cbn [mbind option_bind].
    destruct (parse_exp s3) as [[exp s4]|] eqn:H3; [|done].
    cbn [mbind option_bind]. intros [= <- <-].
    apply Hint in H1. apply Hfrac in H2. apply Hexp in H3. lia. }
  destruct s as [|c s']; [done|]. cbn [parse_number]. case_bool_decide.
  - intros Hp%Hun. cbn [length]. lia.
  - by intros Hp%Hun.
Qed.

(** Every parser consumes input. *)
Lemma parse_value_length fuel :
  (∀ s v r, parse_value fuel s = Some (v, r) → (length r < length s)%nat) ∧
  (∀ acc s v r, parse_elements fuel acc s = Some (v, r) →
                (length r < length s)%nat) ∧
  (∀ acc s v r, parse_members fuel acc s = Some (v, r) →
                (length r < length s)%nat).
Proof.
  induction fuel as [|fuel (IHv & IHe & IHm)]; [done|]. repeat split.
  - intros s v r. cbn [parse_value]. pose proof (skip_ws_length s) as Hws.
    destruct (skip_ws s) as [|c rest]; [done|]. cbn [length] in Hws.
    repeat case_bool_decide.
    + destruct (strip_prefix _ rest) as [r'|] eqn:Hp; [|done].
      intros [= <- <-]. apply strip_prefix_length in Hp. lia.
    + destruct (strip_prefix _ rest) as [r'|] eqn:Hp; [|done].
      intros [= <- <-]. apply strip_prefix_length in Hp. lia.
    + destruct (strip_prefix _ rest) as [r'|] eqn:Hp; [|done].
      intros [= <- <-]. apply strip_prefix_length in Hp. lia.
    + destruct (parse_string_body rest) as [[str r']|] eqn:Hp; [|done].
      intros [= <- <-]. apply parse_string_body_length in Hp. lia.
    + pose proof (skip_ws_length rest) as Hws'.
      destruct (skip_ws rest) as [|c' r']; [done|]. cbn [length] in Hws'.
      case_bool_decide; [intros [= <- <-]; lia|].
      intros Hp%IHe. lia.
    + pose proof (skip_ws_length rest) as Hws'.
      destruct (skip_ws rest) as [|c' r']; [done|]. cbn [length] in Hws'.
      case_bool_decide; [intros [= <- <-]; lia|].
      intros Hp%IHm. lia.
    + destruct (parse_number (c :: rest)) as [[x r']|] eqn:Hp; [|done].
      intros [= <- <-]. apply parse_number_length in Hp. cbn [length] in Hp. lia.
  - intros acc s v r. cbn [parse_elements].
    destruct (parse_value fuel s) as [[v1 r1]|] eqn:Hp; [|done].
    cbn [mbind option_bind]. apply IHv in Hp.
    pose proof (skip_ws_length r1) as Hws.
    destruct (skip_ws r1) as [|c r']; [done|]. cbn [length] in Hws.
    repeat case_bool_decide; try done.
    + intros Hp'%IHe. lia.
    + intros [= <- <-]. lia.
  - intros acc s v r. cbn [parse_members].
    pose proof (skip_ws_length s) as Hws.
    destruct (skip_ws s) as [|c r0]; [done|]. cbn [length] in Hws.
    case_bool_decide; [|done].
    destruct (parse_string_body r0) as [[k r1]|] eqn:Hk; [|done].
    cbn [mbind option_bind]. apply parse_string_body_length in Hk.
    pose proof (skip_ws_length r1) as Hws1.
    destruct (skip_ws r1) as [|c1 r2]; [done|]. cbn [length] in Hws1.
    case_bool_decide; [|done].
    destruct (parse_value fuel r2) as [[v1 r3]|] eqn:Hp; [|done].
    cbn [mbind option_bind]. apply IHv in Hp.
    pose proof (skip_ws_length r3) as Hws3.
    destruct (skip_ws r3) as [|c3 r4]; [done|]. cbn [length] in Hws3.
    repeat case_bool_decide; try done.
    + intros Hp'%IHm. lia.
    + intros [= <- <-]. lia.
Qed.

Lemma parse_value_S fuel s :
  parse_value (S fuel) s =
  match skip_ws s with
  | [] => None
  | c :: rest =>
      if bool_decide (c = 110) then
        r ← strip_prefix (js "ull") rest; Some (JNull, r)
      else if bool_decide (c = 116) then
        r ← strip_prefix (js "rue") rest; Some (JBool true, r)
      else if bool_decide (c = 102) then
        r ← strip_prefix (js "alse") rest; Some (JBool false, r)
      else if bool_decide (c = 34) then
        '(str, r) ← parse_string_body rest; Some (JString str, r)
      else if bool_decide (c = 91) then
        match skip_ws rest with
        | c' :: r => if bool_decide (c' = 93) then Some (JArray [], r)
                     else parse_elements fuel [] rest
        | [] => None
        end
      else if bool_decide (c = 123) then
        match skip_ws rest with
        | c' :: r => if bool_decide (c' = 125) then Some (JObject [], r)
                     else parse_members fuel [] rest
        | [] => None
        end
      else
        '(x, r) ← parse_number (c :: rest); Some (JNumber x, r)
  end.
Proof. reflexivity. Qed.

Lemma parse_elements_S fuel acc s :
  parse_elements (S fuel) acc s =
  '(v, r) ← parse_value fuel s;
  match skip_ws r with
  | c :: r' =>
      if bool_decide (c = 44) then parse_elements fuel (acc ++ [v]) r'
      else if bool_decide (c = 93) then Some (JArray (acc ++ [v]), r')
      else None
  | [] => None
  end.
Proof. reflexivity. Qed.

Lemma parse_members_S fuel acc s :
  parse_members (S fuel) acc s =
  match skip_ws s with
  | c :: r =>
      if bool_decide (c = 34) then
        '(k, r1) ← parse_string_body r;
        match skip_ws r1 with
        | c1 :: r2 =>
            if bool_decide (c1 = 58) then
              '(v, r3) ← parse_value fuel r2;
              match skip_ws r3 with
              | c3 :: r4 =>
                  if bool_decide (c3 = 44)
                  then parse_members fuel (define_property k v acc) r4
                  else if bool_decide (c3 = 125)
                  then Some (JObject (define_property k v acc), r4)
                  else None
              | [] => None
              end
            else None
        | [] => None
        end
      else None
  | [] => None
  end.
Proof. reflexivity. Qed.

Lemma parse_value_fuel_step fuel :
  (∀ s, (2 * length s + 2 ≤ fuel)%nat →
        parse_value (S fuel) s = parse_value fuel s) ∧
  (∀ acc s, (2 * length s + 3 ≤ fuel)%nat →
            parse_elements (S fuel) acc s = parse_elements fuel acc s) ∧
  (∀ acc s, (2 * length s + 3 ≤ fuel)%nat →
            parse_members (S fuel) acc s = parse_members fuel acc s).
Proof.
  induction fuel as [|fuel (IHv & IHe & IHm)]; [repeat split; intros; lia|].
  destruct (parse_value_length fuel) as (Lv & _ & _).
  repeat split.
  - intros s Hfuel. rewrite (parse_value_S (S fuel)), (parse_value_S fuel).
    pose proof (skip_ws_length s) as Hws.
    destruct (skip_ws s) as [|c rest]; [done|]. cbn [length] in Hws.
    rewrite IHe, IHm by lia. done.
  - intros acc s Hfuel.
    rewrite (parse_elements_S (S fuel)), (parse_elements_S fuel).
    rewrite IHv by lia.
    destruct (parse_value fuel s) as [[v r]|] eqn:Hp; [|done].
    cbn [mbind option_bind]. apply Lv in Hp.
    pose proof (skip_ws_length r) as Hws.
    destruct (skip_ws r) as [|c r']; [done|]. cbn [length] in Hws.
    rewrite IHe by lia. done.
  - intros acc s Hfuel.
    rewrite (parse_members_S (S fuel)), (parse_members_S fuel).
    pose proof (skip_ws_length s) as Hws.
    destruct (skip_ws s) as [|c r0]; [done|]. cbn [length] in Hws.
    case_bool_decide; [|done].
    destruct (parse_string_body r0) as [[k r1]|] eqn:Hk; [|done].
    cbn [mbind option_bind]. apply parse_string_body_length in Hk.
    pose proof (skip_ws_length r1) as Hws1.
    destruct (skip_ws r1) as [|c1 r2]; [done|]. cbn [length] in Hws1.
    case_bool_decide; [|done]. rewrite IHv by lia.
    destruct (parse_value fuel r2) as [[v r3]|] eqn:Hp; [|done].
    cbn [mbind option_bind]. apply Lv in Hp.
    pose proof (skip_ws_length r3) as Hws3.
    destruct (skip_ws r3) as [|c3 r4]; [done|]. cbn [length] in Hws3.
    rewrite IHm by lia. done.
Qed.

(** The fuel [JSON_parse] gives to [parse_value] is enough for every text:
    more of it changes nothing. *)
Lemma parse_value_fuel text fuel :
  (2 * length text + 2 ≤ fuel)%nat →
  parse_value fuel text = parse_value (2 * length text + 2) text.
Proof.
  intros Hfuel. induction Hfuel as [|fuel Hfuel IH]; [done|].
  rewrite <- IH. by apply parse_value_fuel_step.
Qed.

End fuel.

(** * The resource cache *)

Section cache.
Context {E : Type}.
Implicit Types (k : JSString) (st : Storage) (env : E) (p : Task E JSValue).

Lemma preferStorage_hit k p st env text :
  st !! k = Some text → text ≠ [] →
  preferStorage k p (st, env) = (parsed text, (st, env)).
Proof.
  intros Hk Hne.
  unfold preferStorage, localStorage_getItem, mbind, Task_bind.
  cbn [fst snd]. rewrite Hk.
  destruct text as [|c text]; [done|]. cbn [truthy].
  unfold JSON_parse_task, parsed. cbn [default]. unfold id.
  by destruct (JSON_parse (c :: text)).
Qed.

Lemma preferStorage_miss k p st env :
  truthy (st !! k) = false →
  preferStorage k p (st, env) =
  match p env with
  | (Resolved r, env') => (Resolved r, (<[k := serialization r]> st, env'))
  | (Rejected e, env') => (Rejected e, (st, env'))
  end.
Proof.
  intros Hk.
  unfold preferStorage, localStorage_getItem, mbind, Task_bind.
  cbn [fst snd]. rewrite Hk.
  unfold await. cbn [fst snd]. by destruct (p env) as [[r|e] env'].
Qed.


End cache.


(** C2.  When the key is absent and the producer fails, the failure is
    what the call settles to and the storage area is left as it is, with no
    entry under the key; a later call for the key invokes its producer. *)
Theorem failed_fetch_is_not_cached {E} (k : JSString)
    (produce produce2 : Task E JSValue) (st : Storage) (n : nat) (env env1 : E)
    (e : JSError) :
  st !! k = None → produce env = (Rejected e, env1) →
  preferStorage k (spy produce) (st, (n, env)) = (Rejected e, (st, (S n, env1))) ∧
  ∀ m env2,
    (preferStorage k (spy produce2) (st, (m, env2))).2.2.1 = S m.
Proof.
  intros Hk Hp. split.
  - rewrite preferStorage_miss by by rewrite Hk.
    unfold spy. cbn [fst snd]. by rewrite Hp.
  - intros m env2. rewrite preferStorage_miss by by rewrite Hk.
    unfold spy. cbn [fst snd]. by destruct (produce2 env2) as [[r|e'] env'].
Qed.


(** C7.  A call for a key leaves the entry of every other key as it was,
    and every key that had an entry still has one. *)
Theorem preferStorage_frame {E} (k k' : JSString) (p : Task E JSValue)
    (st : Storage) (env : E) :
  k' ≠ k →
  (preferStorage k p (st, env)).2.1 !! k' = st !! k' ∧
  ∀ k0, is_Some (st !! k0) → is_Some ((preferStorage k p (st, env)).2.1 !! k0).
Proof.
  intros Hne.
  assert (Hcases : (preferStorage k p (st, env)).2.1 = st ∨
                   ∃ text, (preferStorage k p (st, env)).2.1 = <[k := text]> st).
  { destruct (truthy (st !! k)) eqn:Hk.
    - destruct (st !! k) as [[|c text]|] eqn:Hst; try done.
      left. by rewrite (preferStorage_hit _ _ _ _ (c :: text)).
    - rewrite preferStorage_miss by done.
      destruct (p env) as [[r|e] env']; [right; by eexists|by left]. }
  destruct Hcases as [-> | [text ->]]; [done|]. split.
  - by apply lookup_insert_ne.
  - intros k0 Hk0. destruct (decide (k = k0)) as [<-|].
    + rewrite lookup_insert_eq. by eexists.
    + by rewrite lookup_insert_ne.
Qed.


Section lifetime.
Implicit Types (k key : JSString) (st : Storage) (log : FetchLog).






End lifetime.



(** What [get] does with a fetch that fails, of whichever kind: the error
    goes to the console, the call settles to [undefined], and the string
    "undefined" is stored under the URL. *)
Lemma get_fetch_failure url st page e :
  truthy (st !! url) = false → fetch_failure page url = Some e →
  get url (st, page) =
  (Resolved JUndefined,
   (<[url := js "undefined"]> st,
    {| network := network page;
       requests := requests page ++ [js "https://api.themoviedb.org/3" ++ url];
       console := console page ++ [e] |})).
Proof.
  intros Hk He. unfold get. rewrite preferStorage_miss by done.
  unfold fetch_failure in He.
  unfold catch, fetch, mbind, Task_bind, throw, Response_json, console_error.
  destruct (network page (js "https://api.themoviedb.org/3" ++ url))
    as [|[okay text]]; cbn [ok body] in *.
  - by injection He as <-.
  - destruct okay; cbn [negb] in *; [|by injection He as <-].
    destruct (JSON_parse text); [done|]. by injection He as <-.
Qed.

(** C5, at the failing input: with no network, [get] settles to
    [undefined] instead of failing and stores the string "undefined" under the
    URL; from then on every [get] of that URL fails with the parse error of
    that string, whatever the network has become, and makes no request. *)
Theorem get_swallows_fetch_failure :
  let url := js "/movie/top_rated" in
  get url (∅, offline) =
  (Resolved JUndefined,
   ({[url := js "undefined"]},
    {| network := network offline;
       requests := [js "https://api.themoviedb.org/3/movie/top_rated"];
       console := [FetchTypeError] |})) ∧
  ∀ page, get url ({[url := js "undefined"]}, page) =
          (Rejected SyntaxError, ({[url := js "undefined"]}, page)).
Proof.
  split.
  - rewrite (get_fetch_failure _ _ _ FetchTypeError) by done.
    by rewrite insert_empty.
  - intros page. unfold get.
    rewrite (preferStorage_hit _ _ _ _ (js "undefined")); [done| |done].
    apply lookup_singleton_eq.
Qed.


(** * The banner helpers *)


(** C10 (as amended).  For an integer limit [n]: a string of at most [n]
    characters is returned unchanged; a longer one is cut to its first
    [n - 1] characters (to none when [n] is below 1) followed by "...",
    which for [n] at least 1 is a string of [n + 2] characters, more than the
    limit. *)
Theorem truncate_length (n : Z) (str : JSString) :
  ((Z.of_nat (length str) ≤ n)%Z → truncate n (Some str) = Some str) ∧
  ((Z.of_nat (length str) > n)%Z →
     truncate n (Some str) = Some (take (Z.to_nat (n - 1)) str ++ js "...") ∧
     ((1 ≤ n)%Z →
      Z.of_nat (length (take (Z.to_nat (n - 1)) str ++ js "...")) = (n + 2)%Z)).
Proof.
  unfold truncate. split; intros Hlen.
  - by rewrite bool_decide_eq_false_2 by lia.
  - rewrite bool_decide_eq_true_2 by done. split.
    + do 2 f_equal. unfold substr.
      rewrite bool_decide_eq_false_2 by lia.
      replace (Z.to_nat (0 `min` Z.of_nat (length str))) with 0%nat by lia.
      cbn [drop]. f_equal. lia.
    + intros Hn. rewrite length_app, length_take. cbn [length js]. simpl. lia.
Qed.

(** * The claims on concrete inputs *)

(** The scenario of the specification: the first call for "movie:42"
    fetches [{id: 42, title: "X"}] and stores its text; the second call, with
    a producer that throws, settles to the same resource. *)
Example movie42_scenario :
  let k := js "movie:42" in
  let text := [123; 34; 105; 100; 34; 58; 52; 50; 44; 34; 116; 105; 116; 108;
               101; 34; 58; 34; 88; 34; 125] in
  preferStorage k (spy (mret movie42)) (∅, (0%nat, ()))
  = (Resolved movie42, ({[k := text]}, (1%nat, ()))) ∧
  preferStorage k (spy (throw FetchTypeError)) ({[k := text]}, (1%nat, ()))
  = (Resolved movie42, ({[k := text]}, (1%nat, ()))).
Proof. split; reflexivity. Qed.



(** C2 on the key "movie:42" with a fetch that cannot be made. *)
Lemma failed_fetch_is_not_cached_witness :
  preferStorage (js "movie:42") (spy (throw FetchTypeError)) (∅, (0%nat, ()))
  = (Rejected FetchTypeError, (∅, (1%nat, ()))) ∧
  ∀ (m : nat) (env2 : ()),
    (preferStorage (js "movie:42") (spy (mret movie42)) (∅, (m, env2))).2.2.1 = S m.
Proof.
  apply (failed_fetch_is_not_cached (js "movie:42") (throw FetchTypeError)
           (mret movie42) ∅ 0 () () FetchTypeError); reflexivity.
Defined.





(** C7 on a storage area that holds "movie:43" during a call for
    "movie:42". *)
Lemma preferStorage_frame_witness :
  let st : Storage := {[js "movie:43" := js "null"]} in
  (preferStorage (js "movie:42") (mret movie42) (st, ())).2.1 !! js "movie:43"
  = st !! js "movie:43" ∧
  ∀ k0, is_Some (st !! k0) →
        is_Some ((preferStorage (js "movie:42") (mret movie42) (st, ())).2.1 !! k0).
Proof.
  intros st.
  apply (preferStorage_frame (js "movie:42") (js "movie:43") (mret movie42) st ()).
  discriminate.
Defined.



(** C10 as stated fails for the limit 0: the result for "a" is "...",
    three characters and not two. *)
Lemma truncate_zero_limit :
  ¬ (∀ (n : Z) (str : JSString),
       (Z.of_nat (length str) > n)%Z →
       truncate n (Some str) = Some (take (Z.to_nat (n - 1)) str ++ js "...") ∧
       Z.of_nat (length (take (Z.to_nat (n - 1)) str ++ js "...")) = (n + 2)%Z).
Proof.
  intros H. destruct (H 0%Z (js "a")) as [_ Hlen]; [reflexivity|].
  vm_compute in Hlen. discriminate Hlen.
Qed.

(** C10 (as amended) on the limit 5. *)
Lemma truncate_length_witness :
  truncate 5 (Some (js "abcde")) = Some (js "abcde") ∧
  truncate 5 (Some (js "abcdefgh")) = Some (take 4 (js "abcdefgh") ++ js "...") ∧
  Z.of_nat (length (take 4 (js "abcdefgh") ++ js "...")) = 7%Z.
Proof.
  split.
  - apply (truncate_length 5 (js "abcde")). vm_compute. discriminate.
  - destruct (truncate_length 5 (js "abcdefgh")) as [_ Hlong].
    destruct Hlong as [Hcut Hlen]; [reflexivity|].
    split; [exact Hcut|]. apply Hlen. vm_compute. discriminate.
Defined.

(** * More on [get] *)

Section get_more.
Implicit Types (url : JSString) (st : Storage) (page : Page).






End get_more.



Section gets_once.
Implicit Types (url : JSString) (st : Storage) (page : Page).



End gets_once.



(** * More on the banner helpers *)

Section helpers_more.

(** The floor of [y - 1] is [j] exactly when [y] lies in [j + 1, j + 2). *)
Lemma Qfloor_minus_one_iff (y : Q) (j : Z) :
  Qfloor (y - 1) = j ↔ (inject_Z (j + 1) <= y)%Q ∧ (y < inject_Z (j + 2))%Q.
Proof.
  assert (Hshift : ∀ a : Z, inject_Z (a + 1) = (inject_Z a + 1)%Q)
    by (intros a; apply inject_Z_plus).
  split.
  - intros <-. split.
    + rewrite Hshift. apply (Qplus_le_l _ _ (-(1))%Q).
      rewrite <- Qplus_assoc, Qplus_opp_r, Qplus_0_r. apply Qfloor_le.
    + replace (Qfloor (y - 1) + 2)%Z with (Qfloor (y - 1) + 1 + 1)%Z by lia.
      rewrite Hshift. apply (Qplus_lt_l _ _ (-(1))%Q).
      rewrite <- (Qplus_assoc (inject_Z _)), Qplus_opp_r, Qplus_0_r.
      apply Qlt_floor.
  - intros [Hlo Hhi].
    assert (inject_Z j <= y - 1)%Q as Hlo'.
    { apply (Qplus_le_l _ _ 1%Q). rewrite <- Hshift.
      unfold Qminus. by rewrite <- Qplus_assoc, (Qplus_comm (-(1))), Qplus_opp_r, Qplus_0_r. }
    assert (y - 1 < inject_Z (j + 1))%Q as Hhi'.
    { apply (Qplus_lt_l _ _ 1%Q). rewrite <- Hshift.
      replace (j + 1 + 1)%Z with (j + 2)%Z by lia.
      unfold Qminus. by rewrite <- Qplus_assoc, (Qplus_comm (-(1))), Qplus_opp_r, Qplus_0_r. }
    apply Z.le_antisymm.
    + apply Z.lt_succ_r. rewrite Zlt_Qlt.
      eapply Qle_lt_trans; [apply Qfloor_le|]. by rewrite <- Z.add_1_r.
    + rewrite <- (Qfloor_Z j). by apply Qfloor_resp_le.
Qed.

Lemma truncate_long (n : Z) (str : JSString) :
  (Z.of_nat (length str) > n)%Z →
  truncate n (Some str) = Some (take (Z.to_nat (n - 1)) str ++ js "...").
Proof.
  intros Hlen. unfold truncate. rewrite bool_decide_eq_true_2 by done.
  do 2 f_equal. unfold substr. rewrite bool_decide_eq_false_2 by lia.
  replace (Z.to_nat (0 `min` Z.of_nat (length str))) with 0%nat by lia.
  cbn [drop]. f_equal. lia.
Qed.

Lemma truncate_short (n : Z) (str : JSString) :
  (Z.of_nat (length str) ≤ n)%Z → truncate n (Some str) = Some str.
Proof. intros Hlen. unfold truncate. by rewrite bool_decide_eq_false_2 by lia. Qed.

End helpers_more.

(** X6.  On an array of one element [randomFrom] returns [undefined] for
    every draw: the one element is never selected. *)
Theorem randomFrom_singleton {T} (t : T) (x : Q) :
  (0 <= x)%Q → (x < 1)%Q → randomFrom [t] x = Undefined.
Proof.
  intros Hx0 Hx1. unfold randomFrom, randomIndex. cbn [length bool_decide].
  rewrite bool_decide_eq_false_2 by done.
  assert (Qfloor (x * inject_Z (Z.of_nat 1) - 1) = (-1)%Z) as ->; [|done].
  apply Qfloor_minus_one_iff. change (inject_Z (Z.of_nat 1)) with 1%Q.
  rewrite Qmult_1_r. split; [exact Hx0|exact Hx1].
Qed.


(** X8.  [truncate] is idempotent for every limit: truncating a truncated
    string changes nothing, although the truncated string is longer than the
    limit. *)
Theorem truncate_idempotent (n : Z) (str : option JSString) :
  truncate n (truncate n str) = truncate n str.
Proof.
  destruct str as [s|]; [|done].
  destruct (Z.le_gt_cases (Z.of_nat (length s)) n) as [Hle|Hgt].
  - by rewrite !truncate_short.
  - rewrite (truncate_long n s) by lia.
    assert (length (take (Z.to_nat (n - 1)) s) = Z.to_nat (n - 1)) as Htake
      by (rewrite length_take; lia).
    rewrite truncate_long.
    + by rewrite take_app_length'.
    + rewrite length_app, Htake. cbn [length js]. simpl. lia.
Qed.

(** X9.  The result of [truncate] is at most three characters longer than
    its argument, at most two for a limit that is not negative; and for a
    limit [n] of at least 1 it is not shorter than an argument of [n + 1] or
    [n + 2] characters: cutting such a string gains nothing. *)
Theorem truncate_length_bounds (n : Z) (str : JSString) :
  ∃ out, truncate n (Some str) = Some out ∧
         (length out ≤ length str + 3)%nat ∧
         ((0 ≤ n)%Z → (length out ≤ length str + 2)%nat) ∧
         ((1 ≤ n)%Z → (n < Z.of_nat (length str) ≤ n + 2)%Z →
          (length str ≤ length out)%nat).
Proof.
  destruct (Z.le_gt_cases (Z.of_nat (length str)) n) as [Hle|Hgt].
  - exists str. rewrite truncate_short by done. repeat split; lia.
  - eexists. rewrite truncate_long by lia. split; [done|].
    rewrite length_app, length_take. cbn [length js]. simpl. repeat split; lia.
Qed.

(** * The endpoints and the rows *)

Section rows.
Implicit Types (url : JSString) (st : Storage) (page : Page).




End rows.


(** X11.  A row that is no longer subscribed when its promise settles does
    not touch its state, whatever [get] settled to; the promise chain of the
    effect itself never fails. *)
Theorem ContentRow_unsubscribed (fetchUrl : JSString) (w : Storage * Page)
    (movies : JSValue) :
  ContentRow_effect fetchUrl false (w, movies)
  = (Resolved (), ((get fetchUrl w).2, movies)) ∧
  ∀ subscribed, (ContentRow_effect fetchUrl subscribed (w, movies)).1 = Resolved ().
Proof.
  unfold ContentRow_effect, catch, on_page, mbind, Task_bind, mret, Task_ret,
    setMovies, get_property, throw.
  cbn [fst snd negb]. split.
  - by destruct (get fetchUrl w) as [[r|e] w'].
  - intros [|]; cbn [negb]; destruct (get fetchUrl w) as [[r|e] w']; [|done..].
    by destruct r.
Qed.

(** X12.  A subscribed row ends with the empty list whenever its fetch
    fails, of whichever kind, and whenever the stored text under its URL is
    not JSON: in the first case [get] settles to [undefined], reading its
    [results] throws, and the handler of the row catches that. *)
Theorem ContentRow_failure_shows_nothing (fetchUrl : JSString) (st : Storage)
    (page : Page) (movies : JSValue) :
  (truthy (st !! fetchUrl) = false ∧ is_Some (fetch_failure page fetchUrl)) ∨
  (∃ text, st !! fetchUrl = Some text ∧ text ≠ [] ∧ JSON_parse text = None) →
  ContentRow_effect fetchUrl true ((st, page), movies)
  = (Resolved (), ((get fetchUrl (st, page)).2, JArray [])).
Proof.
  intros Hfail.
  unfold ContentRow_effect, catch, on_page, mbind, Task_bind, mret, Task_ret,
    setMovies, get_property, throw.
  cbn [fst snd negb].
  destruct Hfail as [[Hk [e He]]|(text & Hst & Hne & Hnone)].
  - by rewrite (get_fetch_failure fetchUrl st page e Hk He).
  - unfold get. rewrite (preferStorage_hit _ _ _ _ text) by done.
    unfold parsed. by rewrite Hnone.
Qed.

(** * What [JSON.parse] returns is well formed *)

Section parsed_values.





























End parsed_values.





(** * The further properties on concrete inputs *)






(** X6 on the draw 1/2. *)
Lemma randomFrom_singleton_witness :
  randomFrom [js "a"] (1 # 2) = Undefined.
Proof.
  apply (randomFrom_singleton (js "a") (1 # 2)); [discriminate|reflexivity].
Defined.


(** X9 on the limit 5 and a string of seven characters. *)
Lemma truncate_length_bounds_witness :
  ∃ out, truncate 5 (Some (js "abcdefg")) = Some out ∧
         (length (js "abcdefg") ≤ length out)%nat.
Proof.
  destruct (truncate_length_bounds 5 (js "abcdefg")) as (out & Hout & _ & _ & Hlong).
  exists out. split; [exact Hout|]. apply Hlong; simpl; lia.
Defined.

(** X12 on a row mounted without a network. *)
Lemma ContentRow_failure_shows_nothing_witness :
  let url := js "/movie/top_rated" in
  ContentRow_effect url true ((∅, offline), JUndefined)
  = (Resolved (), ((get url (∅, offline)).2, JArray [])).
Proof.
  intros url. apply (ContentRow_failure_shows_nothing url ∅ offline JUndefined).
  left. split; [reflexivity|]. exists FetchTypeError. reflexivity.
Defined.



